(** * Remote function calls: registry, dispatcher and caller wrapper

    A shallow embedding of [Shared.ts]: the [Payload] envelope codec, the
    [FunctionHandler] class ([registry], [load], [call]), the token generator
    [uuid] and the caller wrapper [realize], followed by the properties of the
    dispatch protocol.

    JavaScript values are a small inductive type; a method of the class is a
    computation over a heap made of the [FunctionHandler] object and the rest
    of the world (clock, random source, whatever handlers and senders touch).
    A settled promise and a thrown exception are the two completions of such
    a computation. *)

From Stdlib Require Import ZArith QArith Qround.
From Stdlib Require Import DecimalString HexadecimalString DecimalZ HexadecimalZ.
From Stdlib Require Import DecimalPos HexadecimalPos.
From Stdlib Require Import Lqa.
From stdpp Require Import base option strings list gmap.

(** ** JavaScript values *)

(** The values that cross the wire and the ones the dispatcher throws.
    [VError name message] is an instance of a built-in error class:
    [new Error(m)] is [VError "Error" m]. *)
#[warnings="-register-all"]
Inductive value : Type :=
| VUndefined
| VNull
| VBoolean (b : bool)
| VNumber (n : Z)
| VString (s : string)
| VArray (elements : list value)
| VObject (fields : list (string * value))
| VError (name message : string).

Definition new_Error (message : string) : value := VError "Error" message.

(** Reading a property of [undefined] makes the engine throw a [TypeError];
    the wording of its message is the engine's (here: V8's). *)
Definition TypeError_property_of_undefined (p : string) : value :=
  VError "TypeError" ("Cannot read property '" +:+ p +:+ "' of undefined").

(** ** The structural validator (io-ts) *)

Record ValidationError := { offending : value; path : list string }.
Definition Errors := list ValidationError.

Inductive Either (L R : Type) : Type :=
| Left (l : L)
| Right (r : R).
Arguments Left {L R} l.
Arguments Right {L R} r.

Definition lefts {R} (e : Either Errors R) : Errors :=
  match e with Left l => l | Right _ => [] end.

(** [t.Type<A>]: a runtime type that decodes an untyped value into an [A],
    or reports why it cannot, and encodes an [A] back. *)
Record t_Type (A : Type) := {
  decode : value -> Either Errors A;
  encode : A -> value;
}.
Arguments decode {A} _ _.
Arguments encode {A} _ _.

Definition failure {A} (v : value) (at_ : list string) : Either Errors A :=
  Left [{| offending := v; path := at_ |}].

Definition relocate (key : string) (e : ValidationError) : ValidationError :=
  {| offending := offending e; path := key :: path e |}.

(** Modelled from the spec: the combinators of the io-ts library
    ([t.string], [t.number], [t.any], [t.tuple], [t.type]) are not part of
    the repository. They follow the collaborator contract
    [decode(raw) -> Result<Value, ValidationErrors>]; the envelope shape is
    the 3-tuple [(string, string, any)]. *)
Definition t_string : t_Type string :=
  {| decode v := match v with VString s => Right s | _ => failure v [] end;
     encode := VString |}.

Definition t_number : t_Type Z :=
  {| decode v := match v with VNumber n => Right n | _ => failure v [] end;
     encode := VNumber |}.

Definition t_any : t_Type value :=
  {| decode v := Right v; encode v := v |}.

Definition t_tuple {A B D} (a : t_Type A) (b : t_Type B) (d : t_Type D)
  : t_Type (A * B * D) :=
  {| decode v :=
       match v with
       | VArray [x; y; z] =>
           match decode a x, decode b y, decode d z with
           | Right x', Right y', Right z' => Right (x', y', z')
           | ex, ey, ez =>
               Left ((relocate "0" <$> lefts ex) ++
                     (relocate "1" <$> lefts ey) ++
                     (relocate "2" <$> lefts ez))
           end
       | _ => failure v []
       end;
     encode '(x, y, z) := VArray [encode a x; encode b y; encode d z] |}.

Fixpoint get_field (k : string) (fields : list (string * value)) : value :=
  match fields with
  | [] => VUndefined
  | (k', v) :: rest => if String.eqb k k' then v else get_field k rest
  end.

(** [t.type({a: ta, b: tb})], for declarations with two named fields. *)
Definition t_type (ka : string) (ta : t_Type value)
                  (kb : string) (tb : t_Type value) : t_Type value :=
  {| decode v :=
       match v with
       | VObject fields =>
           match decode ta (get_field ka fields),
                 decode tb (get_field kb fields) with
           | Right a, Right b => Right (VObject [(ka, a); (kb, b)])
           | ea, eb =>
               Left ((relocate ka <$> lefts ea) ++ (relocate kb <$> lefts eb))
           end
       | _ => failure v []
       end;
     encode v := v |}.

(** A typed codec seen at type [any], as the registry stores it
    ([FN<any, any>]). *)
Definition as_any {A} (c : t_Type A) : t_Type value :=
  {| decode v := match decode c v with
                 | Left e => Left e
                 | Right a => Right (encode c a)
                 end;
     encode v := v |}.

(** ** Receiving function calls *)

Definition Payload : t_Type (string * string * value) :=
  t_tuple t_string t_string t_any.

Record FN := { i : t_Type value; o : t_Type value }.

(** [NamedFnDef]: a declaration is a zero-argument function; besides what it
    returns it has, as every JavaScript function, a [name]. *)
Record NamedFnDef := { name : string; apply : unit -> FN }.

(** What the host gives the program: a world with a clock and a random
    source, and fp-ts's rendering of a failed validation inside a template
    string. *)
Class Runtime := {
  World : Type;
  Date_now : World -> Z;
  Math_random : World -> Q * World;
  Either_toString : Errors -> string;
}.

(** How a computation ends: with a value (a fulfilled promise, a normal
    return) or with a thrown value (a rejected promise). *)
Inductive Completion (A : Type) : Type :=
| Return (a : A)
| Throw (reason : value).
Arguments Return {A} a.
Arguments Throw {A} reason.

Section Shared.
Context `{RT : Runtime} {C : Type}.

(** A handler sees the context and the decoded message; its effects are on
    the world, and its promise is fulfilled or rejected. *)
Definition AsyncFnCall : Type := C -> value -> World -> Completion value * World.

Record RegistryEntry := { fn : AsyncFnCall; type : FN }.

(** [registry: Registry<C> = {}] is an ordinary object. Its own properties
    are the entries assigned so far. Reads that miss them continue along
    the prototype chain, which ends in [Object.prototype]; assigning to the
    key [__proto__] sets the object's prototype instead of a property. *)
Record Registry := {
  own : gmap string RegistryEntry;
  proto : option RegistryEntry;
}.

Definition empty_object : Registry := {| own := ∅; proto := None |}.

Record FunctionHandler := { registry : Registry }.

Definition new_FunctionHandler : FunctionHandler :=
  {| registry := empty_object |}.

Record Heap := { this : FunctionHandler; world : World }.

Definition M (A : Type) : Type := Heap -> Completion A * Heap.

Definition ret {A} (a : A) : M A := fun h => (Return a, h).
Definition throw {A} (v : value) : M A := fun h => (Throw v, h).
Definition bind {A B} (m : M A) (k : A -> M B) : M B :=
  fun h => match m h with
           | (Return a, h') => k a h'
           | (Throw v, h') => (Throw v, h')
           end.
End Shared.

Arguments AsyncFnCall {RT} C.
Arguments RegistryEntry {RT} C.
Arguments Registry {RT} C.
Arguments FunctionHandler {RT} C.
Arguments Heap {RT} C.
Arguments M {RT} C A.

Declare Scope js_scope.
Delimit Scope js_scope with js.
Notation "x <- m ;; k" := (bind m (fun x => k))
  (at level 100, m at next level, right associativity) : js_scope.
Notation "m ;;; k" := (bind m (fun _ => k))
  (at level 100, right associativity) : js_scope.

Section Dispatch.
Context `{RT : Runtime} {C : Type}.
Local Open Scope js_scope.

(** *** Property access on the registry object *)

(** What [registry[key]] evaluates to: an entry, [undefined], or some
    other object found along the prototype chain. Such a foreign object is
    truthy and has no [type] property. *)
Inductive Property : Type :=
| Entry (e : RegistryEntry C)
| Foreign
| Undefined.

(** The properties every ordinary object inherits from
    [Object.prototype]. *)
Definition Object_prototype : list string :=
  [ "constructor"; "hasOwnProperty"; "isPrototypeOf";
    "propertyIsEnumerable"; "toLocaleString"; "toString"; "valueOf";
    "__defineGetter__"; "__defineSetter__";
    "__lookupGetter__"; "__lookupSetter__"; "__proto__" ].

(** [registry[key]]. The key [__proto__] is an accessor inherited from
    [Object.prototype] that reads the prototype itself (it is never an own
    property: the object starts as [{}] and is only written by [set]
    below). Any other key is looked up among the own properties, then
    in [Object.prototype], then among the properties of a prototype
    installed by an earlier assignment (an entry object has [type] and
    [fn]). *)
Definition get (r : Registry C) (key : string) : Property :=
  if decide (key = "__proto__") then
    match proto r with Some e => Entry e | None => Foreign end
  else
    match own r !! key with
    | Some e => Entry e
    | None =>
        if decide (key ∈ Object_prototype) then Foreign
        else match proto r with
             | Some _ =>
                 if decide (key = "type" ∨ key = "fn") then Foreign
                 else Undefined
             | None => Undefined
             end
    end.

(** [registry[key] = e]. *)
Definition set (r : Registry C) (key : string) (e : RegistryEntry C)
  : Registry C :=
  if decide (key = "__proto__")
  then {| own := own r; proto := Some e |}
  else {| own := <[key := e]> (own r); proto := proto r |}.

(** *** The monad's primitives *)

Definition this_registry : M C (Registry C) :=
  fun h => (Return (registry (this h)), h).

Definition set_this_registry (r : Registry C) : M C unit :=
  fun h => (Return tt, {| this := {| registry := r |}; world := world h |}).

(** [await p] for the promise a handler returns: the handler runs on the
    world; a rejection is rethrown with its reason. *)
Definition await (p : World -> Completion value * World) : M C value :=
  fun h => let '(c, w) := p (world h) in
           (c, {| this := this h; world := w |}).

(** *** [FunctionHandler.load] *)

Definition RegisterFunction : Type :=
  NamedFnDef -> AsyncFnCall C -> M C unit.

Definition load (loader : RegisterFunction -> M C unit) : M C unit :=
  loader (fun type fn =>
    r <- this_registry ;;
    set_this_registry (set r (name type) {| type := apply type tt; fn := fn |})).

(** A loader that does nothing but call [register], once per element of
    the script, in order. *)
Definition Registration : Type := NamedFnDef * AsyncFnCall C.

Fixpoint loader_of (script : list Registration)
  (register : RegisterFunction) : M C unit :=
  match script with
  | [] => ret tt
  | (decl, fn) :: rest => register decl fn ;;; loader_of rest register
  end.

(** *** [FunctionHandler.call] *)

Record DispatchResult := { token : string; result : value }.

Definition call (context : C) (msg : value) : M C DispatchResult :=
  match decode Payload msg with
  | Left e => throw (new_Error ("Payload error: " +:+ Either_toString e))
  | Right (name, token, args) =>
      r <- this_registry ;;
      match get r name with
      | Undefined => throw (new_Error ("Handler missing for " +:+ name))
      | Foreign => throw (TypeError_property_of_undefined "i")
      | Entry handler =>
          match decode (i (type handler)) args with
          | Left e =>
              throw (new_Error ("Invalid input for " +:+ name +:+ ": "
                                +:+ Either_toString e))
          | Right input =>
              result <- await (fn handler context input) ;;
              ret {| token := token; result := result |}
          end
      end
  end.

(** ** Making function calls *)

Definition Sender : Type := string -> M C string -> value -> M C value.
Definition AsyncFN : Type := value -> M C value.

(** [n.toString()] and [n.toString(16)] for an integral number. *)
Definition Number_toString (n : Z) : string :=
  DecimalString.NilZero.string_of_int (Z.to_int n).

Definition Number_toString16 (n : Z) : string :=
  HexadecimalString.NilZero.string_of_int (Z.to_hex_int n).

(** [Math.round]: the nearest integer, halves going up. *)
Definition Math_round (x : Q) : Z := Qfloor (x + (1 # 2)).

(** [Math.round(x * 256)] for the number [x] that [Math.random()] returned. *)
Definition salt (x : Q) : Z := Math_round (x * 256).

Definition uuid : M C string :=
  fun h =>
    let now := Date_now (world h) in
    let '(x, w) := Math_random (world h) in
    (Return (Number_toString now +:+ Number_toString16 (salt x)),
     {| this := this h; world := w |}).

Definition realize (decl : NamedFnDef) : Sender -> AsyncFN :=
  fun send => fun input =>
    output <- send (name decl) uuid input ;;
    ret output.
End Dispatch.

Arguments Property {RT} C.
Arguments RegisterFunction {RT} C.
Arguments Registration {RT} C.
Arguments Sender {RT} C.
Arguments AsyncFN {RT} C.

(** ** Vocabulary of the properties *)

Section Vocabulary.
Context `{RT : Runtime} {C : Type}.
Local Open Scope js_scope.

(** The entry that [register(decl)(fn)] builds. *)
Definition entry_of (decl : NamedFnDef) (fn : AsyncFnCall C)
  : RegistryEntry C :=
  {| type := apply decl tt; fn := fn |}.

(** The registry after the assignments of a script, in order. *)
Definition assign_all (script : list (Registration C)) (r : Registry C)
  : Registry C :=
  foldl (fun r '(decl, fn) => set r (name decl) (entry_of decl fn)) r script.

Definition names (script : list (Registration C)) : list string :=
  (fun p => name (fst p)) <$> script.

Definition with_registry (h : Heap C) (r : Registry C) : Heap C :=
  {| this := {| registry := r |}; world := world h |}.

Definition with_world (h : Heap C) (w : World) : Heap C :=
  {| this := this h; world := w |}.

(** The wire envelope [(name, token, payload)]. *)
Definition envelope (name token : string) (payload : value) : value :=
  VArray [VString name; VString token; payload].

(** [{ token, result }] around what the handler's promise settled to. *)
Definition package (token : string) (c : Completion value)
  : Completion DispatchResult :=
  match c with
  | Return r => Return {| token := token; result := r |}
  | Throw cause => Throw cause
  end.

(** A handler without effects: its outcome depends on its arguments only
    and it leaves the world as it found it. *)
Definition pure_handler (f : C -> value -> Completion value)
  : AsyncFnCall C :=
  fun ctx input w => (f ctx input, w).

(** [dispatches h h']: the heap [h'] is reached from [h] by some number of
    invocations of [call], whatever their envelopes and outcomes. *)
Inductive dispatches : Heap C -> Heap C -> Prop :=
| dispatches_refl h : dispatches h h
| dispatches_step h context msg h' :
    dispatches (snd (call context msg h)) h' -> dispatches h h'.

(** The error taxonomy, in the spec's words: which of the four kinds a
    dispatch is expected to fail with, if any. A name is known when an
    entry is registered under it. *)
Inductive ErrorKind : Type :=
| EnvelopeDecodeError
| UnknownFunctionError (name : string)
| InputDecodeError (name : string) (detail : Errors)
| HandlerExecutionError (cause : value).

Definition expected_failure (context : C) (msg : value) (h : Heap C)
  : option ErrorKind :=
  match decode Payload msg with
  | Left _ => Some EnvelopeDecodeError
  | Right (name, _, args) =>
      match get (registry (this h)) name with
      | Entry handler =>
          match decode (i (type handler)) args with
          | Left e => Some (InputDecodeError name e)
          | Right input =>
              match fst (fn handler context input (world h)) with
              | Throw cause => Some (HandlerExecutionError cause)
              | Return _ => None
              end
          end
      | _ => Some (UnknownFunctionError name)
      end
  end.

Definition raised_by_dispatcher (k : ErrorKind) : bool :=
  match k with HandlerExecutionError _ => false | _ => true end.

Definition same_kind (k k' : ErrorKind) : bool :=
  match k, k' with
  | EnvelopeDecodeError, EnvelopeDecodeError
  | UnknownFunctionError _, UnknownFunctionError _
  | InputDecodeError _ _, InputDecodeError _ _
  | HandlerExecutionError _, HandlerExecutionError _ => true
  | _, _ => false
  end.

(** The value the dispatcher throws for each of the kinds it raises
    itself. *)
Definition Payload_error (detail : Errors) : value :=
  new_Error ("Payload error: " +:+ Either_toString detail).
Definition Handler_missing (name : string) : value :=
  new_Error ("Handler missing for " +:+ name).
Definition Invalid_input (name : string) (detail : Errors) : value :=
  new_Error ("Invalid input for " +:+ name +:+ ": " +:+ Either_toString detail).

(** A transport on one host: the send function builds the envelope with a
    token from the factory and hands it to the local dispatcher. *)
Definition loopback (context : C) : Sender C :=
  fun name makeToken input =>
    token <- makeToken ;;
    reply <- call context (envelope name token input) ;;
    ret (result reply).

(** A fire-and-forget send function: it never asks for a token and uses
    the empty string. *)
Definition forget (context : C) : Sender C :=
  fun name _ input =>
    call context (envelope name "" input) ;;;
    ret VUndefined.
End Vocabulary.

(** ** Callers of the dispatcher *)

Section Callers.
Context `{RT : Runtime} {C : Type}.
Local Open Scope js_scope.

(** The entry of the last registration that a script makes under a key,
    if it makes any. *)
Fixpoint registered (script : list (Registration C)) (key : string)
  : option (RegistryEntry C) :=
  match script with
  | [] => None
  | (decl, fn) :: rest =>
      match registered rest key with
      | Some e => Some e
      | None => if decide (name decl = key) then Some (entry_of decl fn)
                else None
      end
  end.

(** The names that read as a foreign object on a handler loaded from a
    script: those every object inherits and, once a prototype has been
    installed by a registration named [__proto__], the two properties of
    an entry object. *)
Definition shadowed (script : list (Registration C)) (key : string) : Prop :=
  key ∈ Object_prototype ∨
  ("__proto__" ∈ names script ∧ (key = "type" ∨ key = "fn")).

(** [socket.emit(event, data)]: what it does to the world is the
    transport's business. *)
Variable socket_emit : C -> string -> value -> World -> World.

Definition emit (context : C) (event : string) (data : value) : M C unit :=
  fun h => (Return tt, with_world h (socket_emit context event data (world h))).

(** The listener of the README's server:
    [socket.on('fn', async (msg) => { const { token, result } =
       await handler.call({ socket, io }, msg);
       if (token === '') socket.emit(token, result); })]. *)
Definition on_fn (context : C) (msg : value) : M C unit :=
  reply <- call context msg ;;
  if decide (token reply = "")
  then emit context (token reply) (result reply)
  else ret tt.
End Callers.

#[export] Instance shadowed_dec `{RT : Runtime} {C : Type}
    (script : list (Registration C)) (key : string)
  : Decision (shadowed script key).
Proof. unfold shadowed. apply _. Defined.

(** ** A concrete host and the README's declarations *)

Module Example.

(** A world with a clock, a supply of the numbers [Math.random] will
    return and a journal that handlers may write to. *)
Record SimWorld := {
  clock : Z;
  randoms : list Q;
  journal : list string;
}.

#[local] Instance sim : Runtime :=
  {| World := SimWorld;
     Date_now := clock;
     Math_random w :=
       match randoms w with
       | [] => (0%Q, w)
       | x :: rest =>
           (x, {| clock := clock w; randoms := rest; journal := journal w |})
       end;
     Either_toString _ := "left(...)" |}.

Definition quiet : SimWorld :=
  {| clock := 1541234567890; randoms := []; journal := [] |}.

(** [Calls.Add]: [{i: t.type({a: t.number, b: t.number}), o: t.number}]. *)
Definition Add : NamedFnDef :=
  {| name := "Add";
     apply _ := {| i := t_type "a" (as_any t_number) "b" (as_any t_number);
                   o := as_any t_number |} |}.

(** [async (ctx, {a, b}) => a + b], on validated input. *)
Definition sum (_ : unit) (msg : value) : Completion value :=
  match msg with
  | VObject fields =>
      match get_field "a" fields, get_field "b" fields with
      | VNumber a, VNumber b => Return (VNumber (a + b))
      | _, _ => Return VUndefined
      end
  | _ => Return VUndefined
  end.

Definition add : AsyncFnCall (RT := sim) unit := pure_handler sum.

(** A handler that writes [tag] to the journal and resolves to
    [undefined]. *)
Definition note (tag : string) : AsyncFnCall (RT := sim) unit :=
  fun _ _ w =>
    (Return VUndefined,
     {| clock := clock w; randoms := randoms w;
        journal := journal w ++ [tag] |}).

(** A handler that writes to the journal and then rejects with
    [reason]. *)
Definition fail_with (reason : value) : AsyncFnCall (RT := sim) unit :=
  fun _ _ w =>
    (Throw reason,
     {| clock := clock w; randoms := randoms w;
        journal := journal w ++ ["failed"] |}).

Definition one_two : value :=
  VObject [("a", VNumber 1); ("b", VNumber 2)].

Definition fresh (w : SimWorld) : Heap (RT := sim) unit :=
  {| this := new_FunctionHandler; world := w |}.

(** The heap after [handler.load(register => { register(Add)(add) })]. *)
Definition serving : Heap (RT := sim) unit :=
  snd (load (fun register => register Add add) (fresh quiet)).

(** Two declarations that accept anything, and a loader for three
    handlers. *)
Definition Ping : NamedFnDef :=
  {| name := "Ping"; apply _ := {| i := t_any; o := t_any |} |}.
Definition Pong : NamedFnDef :=
  {| name := "Pong"; apply _ := {| i := t_any; o := t_any |} |}.

Definition three : list (Registration (RT := sim) unit) :=
  [(Add, add); (Ping, note "ping"); (Pong, note "pong")].

Definition loaded : Heap (RT := sim) unit :=
  snd (load (loader_of three) (fresh quiet)).

(** A handler for [Add] that rejects with an error worded like the
    dispatcher's own. *)
Definition misleading : Heap (RT := sim) unit :=
  snd (load (fun register =>
               register Add (fail_with (new_Error "Handler missing for Sub")))
         (fresh quiet)).

(** Two calls to [Math.random] within one millisecond. *)
Definition same_millisecond : SimWorld :=
  {| clock := 1541234567890; randoms := [1 # 1000; 1 # 900]; journal := [] |}.

Definition next_millisecond : SimWorld :=
  {| clock := 1541234567891; randoms := [1 # 1000]; journal := [] |}.

(** A socket whose [emit] writes the event name to the journal. *)
Definition journal_emit (_ : unit) (event : string) (_ : value)
    (w : SimWorld) : SimWorld :=
  {| clock := clock w; randoms := randoms w;
     journal := journal w ++ ["emit:" +:+ event] |}.

(** A loader that registers [Add] twice, the second time with a handler
    that only writes to the journal. *)
Definition twice : list (Registration (RT := sim) unit) :=
  [(Add, add); (Ping, note "ping"); (Add, note "second")].

(** The script [three] in another order. *)
Definition three_reordered : list (Registration (RT := sim) unit) :=
  [(Pong, note "pong"); (Add, add); (Ping, note "ping")].

End Example.

(** * Properties *)

(** ** Property access *)

Section RegistryFacts.
Context `{RT : Runtime} {C : Type}.
Implicit Types (r : Registry C) (e : RegistryEntry C) (k : string).

Lemma get_set_eq r k e : get (set r k e) k = Entry e.
Proof.
  unfold get, set. destruct (decide (k = "__proto__")) as [-> | Hk]; simpl.
  - reflexivity.
  - by rewrite lookup_insert_eq.
Qed.

(** An entry read under one key survives an assignment to another key. *)
Lemma get_set_ne r k k' e e' :
  k ≠ k' → get r k' = Entry e' → get (set r k e) k' = Entry e'.
Proof.
  intros Hne. unfold get, set.
  destruct (decide (k = "__proto__")) as [-> | Hk]; simpl.
  - destruct (decide (k' = "__proto__")) as [-> | Hk']; [done |].
    destruct (own r !! k'); [done |].
    destruct (decide (k' ∈ Object_prototype)); [done |].
    destruct (proto r); [| done].
    by destruct (decide (k' = "type" ∨ k' = "fn")).
  - by rewrite lookup_insert_ne.
Qed.

Lemma get_empty_object k :
  get (C := C) empty_object k =
    if decide (k ∈ Object_prototype) then Foreign else Undefined.
Proof.
  unfold get, empty_object; simpl. rewrite lookup_empty.
  destruct (decide (k = "__proto__")) as [-> | Hk]; [| done].
  by rewrite decide_True by (unfold Object_prototype; set_solver).
Qed.
End RegistryFacts.

(** ** Loading *)

Section LoadFacts.
Context `{RT : Runtime} {C : Type}.
Local Open Scope js_scope.
Implicit Types (h : Heap C) (r : Registry C) (decl : NamedFnDef)
  (fn : AsyncFnCall C) (script : list (Registration C)).

Lemma load_script script h :
  load (loader_of script) h =
    (Return tt, match script with
                | [] => h
                | _ => with_registry h (assign_all script (registry (this h)))
                end).
Proof.
  unfold load. revert h. induction script as [| [decl fn] rest IH]; intros h.
  - reflexivity.
  - cbn [loader_of]. unfold bind at 1.
    unfold bind at 1, this_registry, set_this_registry at 1.
    rewrite IH. destruct rest; reflexivity.
Qed.

Lemma load_register decl fn h :
  load (fun register => register decl fn) h =
    (Return tt,
     with_registry h (set (registry (this h)) (name decl) (entry_of decl fn))).
Proof. reflexivity. Qed.

Lemma assign_all_keeps script r k e :
  k ∉ names script → get r k = Entry e → get (assign_all script r) k = Entry e.
Proof.
  revert r. induction script as [| [decl fn] rest IH]; intros r Hk Hget.
  - exact Hget.
  - apply not_elem_of_cons in Hk as [Hne Hk]. simpl in Hne.
    cbn [assign_all foldl]. apply IH; [exact Hk |].
    apply get_set_ne; [congruence | exact Hget].
Qed.

Lemma assign_all_registered script r decl fn :
  NoDup (names script) → (decl, fn) ∈ script →
  get (assign_all script r) (name decl) = Entry (entry_of decl fn).
Proof.
  revert r. induction script as [| [d f] rest IH]; intros r Hnd Hin.
  - by apply elem_of_nil in Hin.
  - apply NoDup_cons in Hnd as [Hfresh Hnd]. cbn [assign_all foldl].
    apply elem_of_cons in Hin as [Heq | Hin].
    + inversion Heq; subst d f.
      apply assign_all_keeps; [exact Hfresh | apply get_set_eq].
    + by apply IH.
Qed.
End LoadFacts.

(** ** Dispatching *)

Section CallFacts.
Context `{RT : Runtime} {C : Type}.
Local Open Scope js_scope.
Implicit Types (h : Heap C) (context : C) (msg payload : value)
  (handler : RegistryEntry C).

Lemma decode_Payload_envelope name token payload :
  decode Payload (envelope name token payload) = Right (name, token, payload).
Proof. reflexivity. Qed.

(** Step 1 fails: the envelope error is thrown and the heap is left alone,
    whatever the registry holds. *)
Lemma call_envelope_rejected context msg detail h :
  decode Payload msg = Left detail →
  call context msg h = (Throw (Payload_error detail), h).
Proof. intros Hdec. unfold call. by rewrite Hdec. Qed.

(** Step 2 fails: the name reads as [undefined]; the payload is not
    looked at. *)
Lemma call_handler_missing context msg name token args h :
  decode Payload msg = Right (name, token, args) →
  get (registry (this h)) name = Undefined →
  call context msg h = (Throw (Handler_missing name), h).
Proof.
  intros Hmsg Hget. unfold call. rewrite Hmsg.
  unfold bind, this_registry. by rewrite Hget.
Qed.

(** Step 2 finds something that is not an entry. *)
Lemma call_foreign context msg name token args h :
  decode Payload msg = Right (name, token, args) →
  get (registry (this h)) name = Foreign →
  call context msg h = (Throw (TypeError_property_of_undefined "i"), h).
Proof.
  intros Hmsg Hget. unfold call. rewrite Hmsg.
  unfold bind, this_registry. by rewrite Hget.
Qed.

(** Step 3 fails: the handler is not run. *)
Lemma call_invalid_input context msg name token args handler detail h :
  decode Payload msg = Right (name, token, args) →
  get (registry (this h)) name = Entry handler →
  decode (i (type handler)) args = Left detail →
  call context msg h = (Throw (Invalid_input name detail), h).
Proof.
  intros Hmsg Hget Hdec. unfold call. rewrite Hmsg.
  unfold bind, this_registry. by rewrite Hget, Hdec.
Qed.

(** Steps 4 and 5: the handler runs once, on the decoded input. *)
Lemma call_invokes context msg name token args handler input h :
  decode Payload msg = Right (name, token, args) →
  get (registry (this h)) name = Entry handler →
  decode (i (type handler)) args = Right input →
  call context msg h =
    (package token (fst (fn handler context input (world h))),
     with_world h (snd (fn handler context input (world h)))).
Proof.
  intros Hmsg Hget Hdec. unfold call. rewrite Hmsg.
  unfold bind, this_registry. rewrite Hget, Hdec. unfold await.
  destruct (fn handler context input (world h)) as [[r | cause] w];
    reflexivity.
Qed.

(** [call] never writes to the [FunctionHandler] object. *)
Lemma call_this context msg h : this (snd (call context msg h)) = this h.
Proof.
  unfold call. destruct (decode Payload msg) as [e | [[name token] args]];
    [reflexivity |].
  unfold bind, this_registry.
  destruct (get (registry (this h)) name) as [handler | |]; try reflexivity.
  destruct (decode (i (type handler)) args) as [e | input]; [reflexivity |].
  unfold await.
  destruct (fn handler context input (world h)) as [[r | cause] w];
    reflexivity.
Qed.

Lemma dispatches_this h h' : dispatches h h' → this h' = this h.
Proof.
  induction 1 as [h | h context msg h' _ IH]; [reflexivity |].
  rewrite IH. apply call_this.
Qed.

(** *** The three checks and their order *)

(** When one of the three checks fails, the dispatch throws the value of
    that check and the heap, hence the world the handlers act on, is what
    it was: no handler ran. The exception is a name that is not
    registered and yet is found on the prototype chain. *)
Lemma call_checks context msg h :
  match expected_failure context msg h with
  | Some EnvelopeDecodeError =>
      ∃ detail, call context msg h = (Throw (Payload_error detail), h)
  | Some (UnknownFunctionError name) =>
      call context msg h =
        (Throw (match get (registry (this h)) name with
                | Undefined => Handler_missing name
                | _ => TypeError_property_of_undefined "i"
                end), h)
  | Some (InputDecodeError name detail) =>
      call context msg h = (Throw (Invalid_input name detail), h)
  | Some (HandlerExecutionError cause) =>
      fst (call context msg h) = Throw cause
  | None => ∃ r, fst (call context msg h) = Return r
  end.
Proof.
  unfold expected_failure.
  destruct (decode Payload msg) as [e | [[name token] args]] eqn:Hmsg.
  { exists e. by apply call_envelope_rejected. }
  destruct (get (registry (this h)) name) as [handler | |] eqn:Hget.
  - destruct (decode (i (type handler)) args) as [e | input] eqn:Hin.
    + by eapply call_invalid_input.
    + rewrite (call_invokes _ _ _ _ _ _ _ _ Hmsg Hget Hin). simpl.
      destruct (fst (fn handler context input (world h))); simpl; eauto.
  - rewrite Hget. by eapply call_foreign.
  - rewrite Hget. by eapply call_handler_missing.
Qed.
End CallFacts.

(** ** The dispatch protocol *)

Section Protocol.
Context `{RT : Runtime} {C : Type}.
Local Open Scope js_scope.
Implicit Types (h : Heap C) (context : C) (msg payload input : value)
  (handler : RegistryEntry C) (decl : NamedFnDef) (fn : AsyncFnCall C)
  (script : list (Registration C)).

(** C1. On a handler that has registered nothing, an envelope named
    [constructor] should fail as an unknown function. The registry object
    inherits a property of that name, so the guard for a missing handler
    does not fire and the dispatch ends in the engine's [TypeError]
    instead of the error that names the function. *)
Theorem call_inherited_name_not_reported_missing context token payload w :
  let h := {| this := new_FunctionHandler; world := w |} in
  expected_failure context (envelope "constructor" token payload) h
    = Some (UnknownFunctionError "constructor") ∧
  call context (envelope "constructor" token payload) h
    = (Throw (TypeError_property_of_undefined "i"), h) ∧
  TypeError_property_of_undefined "i" ≠ Handler_missing "constructor".
Proof.
  intros h. split; [reflexivity |]. split; [| discriminate].
  by eapply call_foreign.
Qed.

(** C2. For a name registered with a handler and a payload that the
    declaration's input validator accepts, [call] returns
    [{ token, result }] with the token exactly as received (the empty
    string included: it is echoed, not interpreted) and the value the
    handler resolved to. *)
Theorem call_returns_token_and_result
    context name token payload handler input r w h :
  get (registry (this h)) name = Entry handler →
  decode (i (type handler)) payload = Right input →
  fn handler context input (world h) = (Return r, w) →
  call context (envelope name token payload) h =
    (Return {| token := token; result := r |}, with_world h w).
Proof.
  intros Hget Hdec Hrun.
  rewrite (call_invokes _ _ _ _ _ _ _ _ (decode_Payload_envelope _ _ _) Hget Hdec).
  rewrite Hrun. reflexivity.
Qed.

(** C3. In a registry loaded from declarations with pairwise distinct
    names, an envelope carrying the name of one of them is validated
    against that declaration and runs the handler registered with it,
    once, and nothing else: the world changes as that handler changes
    it. *)
Theorem dispatch_selects_registered_handler
    script decl fn context token payload w :
  NoDup (names script) → (decl, fn) ∈ script →
  let h := snd (load (loader_of script)
                  {| this := new_FunctionHandler; world := w |}) in
  call context (envelope (name decl) token payload) h =
    match decode (i (apply decl tt)) payload with
    | Left detail => (Throw (Invalid_input (name decl) detail), h)
    | Right input =>
        (package token (fst (fn context input w)),
         with_world h (snd (fn context input w)))
    end.
Proof.
  intros Hnd Hin h.
  assert (Hget : get (registry (this h)) (name decl) = Entry (entry_of decl fn)).
  { subst h. rewrite load_script. destruct script as [| p rest].
    - by apply elem_of_nil in Hin.
    - by apply assign_all_registered. }
  assert (Hw : world h = w).
  { subst h. rewrite load_script. by destruct script. }
  destruct (decode (i (apply decl tt)) payload) as [detail | input] eqn:Hdec.
  - by eapply call_invalid_input.
  - rewrite (call_invokes _ _ _ _ _ _ _ _ (decode_Payload_envelope _ _ _) Hget Hdec).
    rewrite Hw. reflexivity.
Qed.


(** C7. However many dispatches are made, with whatever envelopes and
    outcomes, the registry afterwards is the registry before; and a
    dispatch to a pure handler has the same outcome after them as before
    them. *)
Theorem dispatches_leave_registry h h' :
  dispatches h h' →
  registry (this h') = registry (this h) ∧
  ∀ context name token payload handler f,
    get (registry (this h)) name = Entry handler →
    fn handler = pure_handler f →
    fst (call context (envelope name token payload) h') =
    fst (call context (envelope name token payload) h).
Proof.
  intros Hd. pose proof (dispatches_this _ _ Hd) as Hthis.
  split; [by rewrite Hthis |].
  intros context name token payload handler f Hget Hpure.
  assert (Hget' : get (registry (this h')) name = Entry handler)
    by (by rewrite Hthis).
  destruct (decode (i (type handler)) payload) as [detail | input] eqn:Hdec.
  - pose proof (decode_Payload_envelope name token payload) as Hmsg.
    rewrite (call_invalid_input _ _ _ _ _ _ _ _ Hmsg Hget Hdec).
    by rewrite (call_invalid_input _ _ _ _ _ _ _ _ Hmsg Hget' Hdec).
  - pose proof (decode_Payload_envelope name token payload) as Hmsg.
    rewrite (call_invokes _ _ _ _ _ _ _ _ Hmsg Hget Hdec).
    rewrite (call_invokes _ _ _ _ _ _ _ _ Hmsg Hget' Hdec).
    rewrite Hpure. reflexivity.
Qed.

(** C10. A later [load] removes nothing: an entry read under a key before
    it is read under that key after it, unless the loader registers that
    very name. Nor is the registry ever closed: after a dispatch, [load]
    still completes normally and its registration takes effect. *)
Theorem load_is_additive_and_never_sealed script k e h :
  k ∉ names script →
  get (registry (this h)) k = Entry e →
  (fst (load (loader_of script) h) = Return tt ∧
   get (registry (this (snd (load (loader_of script) h)))) k = Entry e) ∧
  ∀ context msg decl fn,
    let h1 := snd (call context msg h) in
    fst (load (fun register => register decl fn) h1) = Return tt ∧
    get (registry (this (snd (load (fun register => register decl fn) h1))))
        (name decl) = Entry (entry_of decl fn).
Proof.
  intros Hk Hget. split.
  - rewrite load_script. split; [reflexivity |]. simpl.
    destruct script; [exact Hget |]. by apply assign_all_keeps.
  - intros context msg decl fn h1. rewrite load_register. simpl.
    split; [reflexivity | apply get_set_eq].
Qed.
End Protocol.

(** ** The caller side *)

Section CallerSide.
Context `{RT : Runtime} {C : Type}.
Local Open Scope js_scope.
Implicit Types (h : Heap C) (context : C) (input : value)
  (decl : NamedFnDef) (fn : AsyncFnCall C) (send : Sender C).

Lemma uuid_returns h :
  uuid h =
    (Return (Number_toString (Date_now (world h)) +:+
             Number_toString16 (salt (fst (Math_random (world h))))),
     with_world h (snd (Math_random (world h)))).
Proof. unfold uuid. by destruct (Math_random (world h)). Qed.

(** Awaiting a promise and returning what it settled to is the promise. *)
Lemma bind_ret {A} (m : M C A) h : bind m ret h = m h.
Proof. unfold bind, ret. by destruct (m h) as [[a | reason] h']. Qed.

(** C6. The callable [realize(decl)(send)] applied to an input settles
    exactly as [send(decl.name, uuid, input)] does, value or failure,
    with the same effects: the name is the declaration's, the input is
    untouched, the output is not validated, and the token factory is
    handed over unevaluated, for [send] to call or not. *)
Theorem realize_delegates_to_send decl send input h :
  realize decl send input h = send (name decl) uuid input h.
Proof.
  unfold realize. apply bind_ret.
Qed.

(** C9. Registration and sending use the same string, the [name] of the
    declaration thunk: after [register(decl)(fn)] the entry is read under
    [decl.name], [realize(decl)] passes [decl.name] to whatever send
    function it is given, and a call sent through the local dispatcher
    therefore reaches [fn]. *)
Theorem register_and_realize_agree_on_name decl fn send context input h :
  let h1 := snd (load (fun register => register decl fn) h) in
  let h2 := snd (uuid h1) in
  get (registry (this h1)) (name decl) = Entry (entry_of decl fn) ∧
  realize decl send input h1 = send (name decl) uuid input h1 ∧
  realize decl (loopback context) input h1 =
    match decode (i (apply decl tt)) input with
    | Left detail => (Throw (Invalid_input (name decl) detail), h2)
    | Right v => (fst (fn context v (world h2)),
                  with_world h2 (snd (fn context v (world h2))))
    end.
Proof.
  intros h1 h2.
  assert (Hget : get (registry (this h1)) (name decl) = Entry (entry_of decl fn)).
  { subst h1. rewrite load_register. apply get_set_eq. }
  split; [exact Hget |]. unfold realize. rewrite !bind_ret.
  split; [reflexivity |]. unfold loopback, bind at 1.
  subst h2. rewrite uuid_returns. cbn [fst snd].
  set (h2 := with_world h1 _). set (token := (_ +:+ _)).
  assert (Hget2 : get (registry (this h2)) (name decl) = Entry (entry_of decl fn))
    by exact Hget.
  unfold bind.
  destruct (decode (i (apply decl tt)) input) as [detail | v] eqn:Hdec.
  - by rewrite (call_invalid_input _ _ _ _ _ _ _ _
                  (decode_Payload_envelope _ _ _) Hget2 Hdec).
  - rewrite (call_invokes _ _ _ _ _ _ _ _
               (decode_Payload_envelope _ _ _) Hget2 Hdec). simpl.
    by destruct (fn context v _) as [[r | cause] w].
Qed.
End CallerSide.

(** ** Failures *)

Section Failures.
Context `{RT : Runtime} {C : Type}.
Implicit Types (h : Heap C) (context : C) (msg payload input : value)
  (handler : RegistryEntry C).

(** The thrown value and the heap, check by check. *)
Lemma call_thrown context msg h k :
  expected_failure context msg h = Some k →
  match k with
  | EnvelopeDecodeError =>
      ∃ detail,
        decode Payload msg = Left detail ∧
        call context msg h = (Throw (Payload_error detail), h)
  | UnknownFunctionError n =>
      get (registry (this h)) n = Undefined →
      call context msg h = (Throw (Handler_missing n), h)
  | InputDecodeError n detail =>
      call context msg h = (Throw (Invalid_input n detail), h)
  | HandlerExecutionError cause => fst (call context msg h) = Throw cause
  end.
Proof.
  unfold expected_failure.
  destruct (decode Payload msg) as [e | [[n tok] args]] eqn:Hmsg.
  { intros [= <-]. exists e. split; [reflexivity |].
    by apply call_envelope_rejected. }
  destruct (get (registry (this h)) n) as [handler | |] eqn:Hget.
  - destruct (decode (i (type handler)) args) as [e | input] eqn:Hin.
    + intros [= <-]. by eapply call_invalid_input.
    + rewrite (call_invokes _ _ _ _ _ _ _ _ Hmsg Hget Hin).
      destruct (fst (fn handler context input (world h))) eqn:Hrun;
        [discriminate |].
      intros [= <-]. reflexivity.
  - intros [= <-] Hundef. congruence.
  - intros [= <-] _. by eapply call_handler_missing.
Qed.

(** What the dispatcher throws for a kind it raises itself. *)
Lemma call_raises context msg h k :
  expected_failure context msg h = Some k →
  raised_by_dispatcher k = true →
  ∃ name message,
    fst (call context msg h) = Throw (VError name message) ∧
    match k with
    | EnvelopeDecodeError =>
        name = "Error" ∧ ∃ rest, message = "Payload error: " +:+ rest
    | UnknownFunctionError _ =>
        name = "TypeError" ∨
        name = "Error" ∧ ∃ rest, message = "Handler missing for " +:+ rest
    | InputDecodeError _ _ =>
        name = "Error" ∧ ∃ rest, message = "Invalid input for " +:+ rest
    | HandlerExecutionError _ => False
    end.
Proof.
  intros Hk Hraised. pose proof (call_checks context msg h) as Hcall.
  rewrite Hk in Hcall. destruct k as [| n | n detail | cause].
  - destruct Hcall as [detail ->]. unfold Payload_error, new_Error. eauto 8.
  - rewrite Hcall.
    destruct (get (registry (this h)) n);
      unfold Handler_missing, TypeError_property_of_undefined, new_Error;
      eauto 8.
  - rewrite Hcall. unfold Invalid_input, new_Error. eauto 8.
  - discriminate.
Qed.

(** C4. A failure of the invoked handler reaches the caller of [call] as
    it is: the dispatch is rejected with the handler's own reason, after
    the handler ran once. What the dispatcher throws itself is a plain
    [Error]: "Payload error: ..." when the envelope is rejected, "Handler
    missing for <name>" when the name reads as [undefined], "Invalid input
    for <name>: ..." when the payload is rejected; none of them changes
    the heap. Two dispatches that fail at different checks never throw the
    same value. *)
Theorem handler_failure_propagates_cause
    context name token payload handler input cause w h :
  get (registry (this h)) name = Entry handler →
  decode (i (type handler)) payload = Right input →
  fn handler context input (world h) = (Throw cause, w) →
  call context (envelope name token payload) h = (Throw cause, with_world h w) ∧
  (∀ context1 msg1 (h1 : Heap C) k1,
     expected_failure context1 msg1 h1 = Some k1 →
     match k1 with
     | EnvelopeDecodeError =>
         ∃ detail,
           decode Payload msg1 = Left detail ∧
           call context1 msg1 h1 =
             (Throw (VError "Error"
                       ("Payload error: " +:+ Either_toString detail)), h1)
     | UnknownFunctionError n =>
         get (registry (this h1)) n = Undefined →
         call context1 msg1 h1 =
           (Throw (VError "Error" ("Handler missing for " +:+ n)), h1)
     | InputDecodeError n detail =>
         call context1 msg1 h1 =
           (Throw (VError "Error"
                     ("Invalid input for " +:+ n +:+ ": "
                      +:+ Either_toString detail)), h1)
     | HandlerExecutionError cause1 =>
         fst (call context1 msg1 h1) = Throw cause1
     end) ∧
  ∀ context1 msg1 (h1 : Heap C) k1 context2 msg2 (h2 : Heap C) k2,
    expected_failure context1 msg1 h1 = Some k1 →
    expected_failure context2 msg2 h2 = Some k2 →
    raised_by_dispatcher k1 = true →
    raised_by_dispatcher k2 = true →
    same_kind k1 k2 = false →
    fst (call context1 msg1 h1) ≠ fst (call context2 msg2 h2).
Proof.
  intros Hget Hdec Hrun. split; [| split].
  - rewrite (call_invokes _ _ _ _ _ _ _ _
               (decode_Payload_envelope _ _ _) Hget Hdec), Hrun.
    reflexivity.
  - intros context1 msg1 h1 k1 Hk1. apply (call_thrown _ _ _ _ Hk1).
  - intros context1 msg1 h1 k1 context2 msg2 h2 k2 Hk1 Hk2 Hr1 Hr2 Hdiff.
    destruct (call_raises _ _ _ _ Hk1 Hr1) as (n1 & m1 & -> & H1).
    destruct (call_raises _ _ _ _ Hk2 Hr2) as (n2 & m2 & -> & H2).
    intros [= -> ->].
    destruct k1, k2; try discriminate; try contradiction;
      repeat match goal with
             | H : _ ∧ _ |- _ => destruct H
             | H : _ ∨ _ |- _ => destruct H
             | H : ∃ _, _ |- _ => destruct H
             end; subst; discriminate.
Qed.
End Failures.

(** ** Tokens *)

Section Tokens.
Context `{RT : Runtime} {C : Type}.
Implicit Types (h : Heap C).

Lemma append_inj_length (s1 s2 a b : string) :
  String.length s1 = String.length s2 →
  s1 +:+ a = s2 +:+ b → s1 = s2 ∧ a = b.
Proof.
  revert s2. induction s1 as [| c s1 IH]; intros [| c' s2]; simpl;
    try discriminate.
  - done.
  - intros [= Hlen] [= -> Happ]. destruct (IH _ Hlen Happ) as [-> ->]. done.
Qed.

Lemma Number_toString_inj (n n' : Z) :
  Number_toString n = Number_toString n' → n = n'.
Proof.
  unfold Number_toString. intros Heq. apply DecimalZ.to_int_inj.
  assert (Hparse : ∀ z : Z,
    DecimalString.NilZero.int_of_string
      (DecimalString.NilZero.string_of_int (Z.to_int z)) = Some (Z.to_int z)).
  { intros z. apply DecimalString.NilZero.isi; destruct z; try discriminate;
      intros [= Hnil]; by apply DecimalPos.Unsigned.to_uint_nonnil in Hnil. }
  pose proof (Hparse n) as Hn. rewrite Heq, Hparse in Hn. congruence.
Qed.

Lemma Number_toString16_inj (n n' : Z) :
  Number_toString16 n = Number_toString16 n' → n = n'.
Proof.
  unfold Number_toString16. intros Heq. apply HexadecimalZ.to_int_inj.
  assert (Hparse : ∀ z : Z,
    HexadecimalString.NilZero.int_of_string
      (HexadecimalString.NilZero.string_of_int (Z.to_hex_int z))
    = Some (Z.to_hex_int z)).
  { intros z. apply HexadecimalString.NilZero.isi; destruct z;
      try discriminate;
      intros [= Hnil]; by apply HexadecimalPos.Unsigned.to_uint_nonnil in Hnil. }
  pose proof (Hparse n) as Hn. rewrite Heq, Hparse in Hn. congruence.
Qed.

(** C8. Two invocations of the token generator produce different strings
    when their clock readings have the same number of digits and they
    differ in the clock reading or in the salt, the random number scaled
    to 256 and rounded. *)
Theorem uuid_tokens_differ h h' :
  let now := Date_now (world h) in
  let now' := Date_now (world h') in
  let x := fst (Math_random (world h)) in
  let x' := fst (Math_random (world h')) in
  String.length (Number_toString now) = String.length (Number_toString now') →
  now ≠ now' ∨ salt x ≠ salt x' →
  fst (uuid h) ≠ fst (uuid h').
Proof.
  intros now now' x x' Hlen Hdiff. rewrite !uuid_returns. cbn [fst].
  intros [= Heq]. apply (append_inj_length _ _ _ _ Hlen) in Heq as [Hn Hs].
  apply Number_toString_inj in Hn. apply Number_toString16_inj in Hs.
  destruct Hdiff; contradiction.
Qed.
End Tokens.

(** ** The properties at work on the README's example *)

Section Instances.
Import Example.

(** Round trip (the [Add] example). *)
Example dispatch_Add :
  fst (call tt (envelope "Add" "tok1" one_two) serving)
  = Return {| token := "tok1"; result := VNumber 3 |}.
Proof. reflexivity. Qed.

Example dispatch_unknown :
  fst (call tt (envelope "DoesNotExist" "t" (VObject [])) serving)
  = Throw (new_Error "Handler missing for DoesNotExist").
Proof. reflexivity. Qed.

Example dispatch_invalid_payload :
  call tt (envelope "Add" "t" (VObject [("a", VString "x")])) serving
  = (Throw (new_Error "Invalid input for Add: left(...)"), serving).
Proof. reflexivity. Qed.

Example dispatch_malformed :
  call tt (VArray [VString "Add"; VString "t"]) serving
  = (Throw (new_Error "Payload error: left(...)"), serving).
Proof. reflexivity. Qed.

(** A send function that never calls the token factory leaves the random
    source alone; one that calls it once draws one number. *)
Example realize_forget :
  let h := with_world serving same_millisecond in
  realize Add (forget tt) one_two h = (Return VUndefined, h).
Proof. reflexivity. Qed.

Example realize_loopback :
  let h := with_world serving same_millisecond in
  realize Add (loopback tt) one_two h
  = (Return (VNumber 3),
     with_world serving
       {| clock := 1541234567890; randoms := [1 # 900]; journal := [] |}).
Proof. reflexivity. Qed.

Lemma call_returns_token_and_result_witness :
  call tt (envelope "Add" "" one_two) serving
  = (Return {| token := ""; result := VNumber 3 |}, serving).
Proof.
  apply (call_returns_token_and_result tt "Add" "" one_two
           (entry_of Add add) one_two (VNumber 3) quiet serving);
    reflexivity.
Defined.

Lemma dispatch_selects_registered_handler_witness :
  NoDup (names three) ∧ (Ping, note "ping") ∈ three ∧
  journal (world (snd (call tt (envelope "Ping" "t1" VNull) loaded)))
  = ["ping"].
Proof.
  assert (Hnd : NoDup (names three))
    by (refine (bool_decide_unpack _ _); vm_compute; exact I).
  assert (Hin : (Ping, note "ping") ∈ three)
    by (apply list_elem_of_further, list_elem_of_here).
  split; [exact Hnd |]. split; [exact Hin |].
  exact (f_equal (fun p : Completion DispatchResult * Heap (RT := sim) unit =>
                    journal (world (snd p)))
           (dispatch_selects_registered_handler
              three Ping (note "ping") tt "t1" VNull quiet Hnd Hin)).
Defined.

Lemma dispatches_leave_registry_witness :
  let after := snd (call tt (envelope "Pong" "" VNull)
                      (snd (call tt (envelope "Ping" "t" VNull) loaded))) in
  dispatches loaded after ∧
  journal (world after) = ["ping"; "pong"] ∧
  registry (this after) = registry (this loaded) ∧
  fst (call tt (envelope "Add" "t" one_two) after)
  = fst (call tt (envelope "Add" "t" one_two) loaded).
Proof.
  intros after.
  assert (Hd : dispatches loaded after)
    by (eapply dispatches_step, dispatches_step, dispatches_refl).
  split; [exact Hd |]. split; [reflexivity |].
  destruct (dispatches_leave_registry loaded after Hd) as [Hreg Hpure].
  split; [exact Hreg |].
  apply (Hpure tt "Add" "t" one_two (entry_of Add add) sum); reflexivity.
Defined.

Lemma load_is_additive_and_never_sealed_witness :
  let later := snd (load (loader_of [(Ping, note "ping"); (Pong, note "pong")])
                      serving) in
  ("Add" ∉ names [(Ping, note "ping"); (Pong, note "pong")]) ∧
  get (registry (this serving)) "Add" = Entry (entry_of Add add) ∧
  get (registry (this later)) "Add" = Entry (entry_of Add add).
Proof.
  intros later.
  assert (Hk : "Add" ∉ names [(Ping, note "ping"); (Pong, note "pong")])
    by (refine (bool_decide_unpack _ _); vm_compute; exact I).
  assert (Hget : get (registry (this serving)) "Add" = Entry (entry_of Add add))
    by reflexivity.
  split; [exact Hk |]. split; [exact Hget |].
  apply (load_is_additive_and_never_sealed _ _ _ _ Hk Hget).
Defined.

Lemma handler_failure_propagates_cause_witness :
  call tt (envelope "Add" "t" one_two) misleading
  = (Throw (new_Error "Handler missing for Sub"),
     with_world misleading
       {| clock := 1541234567890; randoms := []; journal := ["failed"] |}).
Proof.
  apply (handler_failure_propagates_cause tt "Add" "t" one_two
           (entry_of Add (fail_with (new_Error "Handler missing for Sub")))
           one_two (new_Error "Handler missing for Sub")
           {| clock := 1541234567890; randoms := []; journal := ["failed"] |}
           misleading);
    reflexivity.
Defined.

(** A handler that fails with an error worded like the dispatcher's is
    not told apart from a missing handler: no classification of thrown
    values recovers the kind of every failed dispatch. *)
Lemma handler_failure_not_distinguishable :
  ¬ ∃ classify : value → ErrorKind,
      ∀ (msg : value) (h : Heap (RT := sim) unit) k reason,
        expected_failure tt msg h = Some k →
        fst (call tt msg h) = Throw reason →
        same_kind (classify reason) k = true.
Proof.
  intros [classify Hclassify].
  pose proof (Hclassify (envelope "Add" "t" one_two) misleading
                (HandlerExecutionError (new_Error "Handler missing for Sub"))
                (new_Error "Handler missing for Sub")
                eq_refl eq_refl) as Hhandler.
  pose proof (Hclassify (envelope "Sub" "t" one_two) misleading
                (UnknownFunctionError "Sub")
                (new_Error "Handler missing for Sub")
                eq_refl eq_refl) as Hmissing.
  destruct (classify (new_Error "Handler missing for Sub")); discriminate.
Qed.

Lemma uuid_tokens_differ_witness :
  fst (uuid (fresh same_millisecond)) ≠ fst (uuid (fresh next_millisecond)).
Proof.
  apply (uuid_tokens_differ (fresh same_millisecond) (fresh next_millisecond)).
  - reflexivity.
  - left. discriminate.
Defined.

(** Two tokens generated within one millisecond, from two different
    random numbers that round to the same salt, are the same string. *)
Lemma uuid_collision :
  let first := uuid (fresh same_millisecond) in
  let second := uuid (snd first) in
  fst (Math_random (world (fresh same_millisecond)))
    ≠ fst (Math_random (world (snd first))) ∧
  fst first = Return "15412345678900" ∧
  fst second = fst first.
Proof. split; [discriminate | split; reflexivity]. Qed.
End Instances.


(** * Further properties *)

(** ** Loading, continued *)

Section Loading.
Context `{RT : Runtime} {C : Type}.
Local Open Scope js_scope.
Implicit Types (h : Heap C) (r : Registry C) (decl : NamedFnDef)
  (fn : AsyncFnCall C) (script : list (Registration C)) (k : string).

Lemma assign_all_app script script' r :
  assign_all (script ++ script') r = assign_all script' (assign_all script r).
Proof. unfold assign_all. apply foldl_app. Qed.

Lemma with_registry_id h : with_registry h (registry (this h)) = h.
Proof. by destruct h as [[r] w]. Qed.

(** What [load] does with a script, without the case distinction. *)
Lemma load_script_registry script h :
  load (loader_of script) h =
    (Return tt, with_registry h (assign_all script (registry (this h)))).
Proof.
  rewrite load_script. destruct script; [| reflexivity].
  by rewrite with_registry_id.
Qed.

Lemma own_assign_all script r k :
  k ∉ names script → own (assign_all script r) !! k = own r !! k.
Proof.
  revert r. induction script as [| [decl fn] rest IH]; intros r Hk;
    [reflexivity |].
  apply not_elem_of_cons in Hk as [Hne Hk]. simpl in Hne.
  cbn [assign_all foldl]. unfold assign_all in IH. rewrite IH by exact Hk.
  unfold set. destruct (decide (name decl = "__proto__")); simpl;
    [reflexivity |].
  by rewrite lookup_insert_ne.
Qed.

Lemma proto_assign_all_absent script r :
  "__proto__" ∉ names script → proto (assign_all script r) = proto r.
Proof.
  revert r. induction script as [| [decl fn] rest IH]; intros r Hk;
    [reflexivity |].
  apply not_elem_of_cons in Hk as [Hne Hk]. simpl in Hne.
  cbn [assign_all foldl]. unfold assign_all in IH. rewrite IH by exact Hk.
  unfold set. by rewrite decide_False by congruence.
Qed.

Lemma proto_set_is_Some r k (e : RegistryEntry C) :
  is_Some (proto r) → is_Some (proto (set r k e)).
Proof. unfold set. destruct (decide (k = "__proto__")); simpl; eauto. Qed.

Lemma proto_assign_all_is_Some script r :
  is_Some (proto r) → is_Some (proto (assign_all script r)).
Proof.
  revert r. induction script as [| [decl fn] rest IH]; intros r Hr;
    [exact Hr |].
  cbn [assign_all foldl]. apply IH, proto_set_is_Some, Hr.
Qed.

Lemma proto_assign_all_present script r :
  "__proto__" ∈ names script → is_Some (proto (assign_all script r)).
Proof.
  revert r. induction script as [| [decl fn] rest IH]; intros r Hk.
  - by apply elem_of_nil in Hk.
  - cbn [assign_all foldl].
    destruct (decide ("__proto__" ∈ names rest)) as [Hin | Hout].
    + by apply IH.
    + apply elem_of_cons in Hk as [Heq | Hin]; [| contradiction].
      simpl in Heq. apply proto_assign_all_is_Some.
      unfold set. rewrite decide_True by done. simpl. eauto.
Qed.

(** What a name that the script does not register reads as, on a handler
    that started empty. *)
Lemma get_unregistered script k :
  k ∉ names script →
  get (assign_all script empty_object) k =
    if decide (shadowed script k) then Foreign else Undefined.
Proof.
  intros Hk. unfold get. rewrite own_assign_all by exact Hk.
  cbn [own empty_object]. rewrite lookup_empty.
  destruct (decide (k = "__proto__")) as [-> | Hne].
  - rewrite proto_assign_all_absent by exact Hk. cbn [proto empty_object].
    destruct (decide (shadowed script "__proto__")) as [_ | Hn]; [reflexivity |].
    exfalso. apply Hn. left. unfold Object_prototype. set_solver.
  - destruct (decide (k ∈ Object_prototype)) as [Hin | Hout].
    { destruct (decide (shadowed script k)) as [_ | Hn]; [reflexivity |].
      exfalso. apply Hn. by left. }
    destruct (decide ("__proto__" ∈ names script)) as [Hp | Hp].
    + destruct (proto_assign_all_present script empty_object Hp) as [e ->].
      destruct (decide (k = "type" ∨ k = "fn")) as [Htf | Htf];
        destruct (decide (shadowed script k)) as [Hs | Hs]; try reflexivity.
      * exfalso. apply Hs. right. done.
      * exfalso. destruct Hs as [? | [_ ?]]; contradiction.
    + rewrite proto_assign_all_absent by exact Hp. cbn [proto empty_object].
      destruct (decide (shadowed script k)) as [Hs | Hs]; [| reflexivity].
      exfalso. destruct Hs as [? | [? _]]; contradiction.
Qed.

Lemma registered_None script k :
  registered script k = None → k ∉ names script.
Proof.
  induction script as [| [decl fn] rest IH]; simpl; intros Hreg.
  - apply not_elem_of_nil.
  - destruct (registered rest k); [discriminate |].
    destruct (decide (name decl = k)); [discriminate |].
    apply not_elem_of_cons. split; [congruence | by apply IH].
Qed.

Lemma assign_all_registered_last script r k e :
  registered script k = Some e → get (assign_all script r) k = Entry e.
Proof.
  revert r. induction script as [| [decl fn] rest IH]; simpl; intros r Hreg;
    [discriminate |].
  destruct (registered rest k) as [e' |] eqn:Hrest.
  - injection Hreg as ->. by apply IH.
  - destruct (decide (name decl = k)) as [<- | Hne]; [| discriminate].
    injection Hreg as <-.
    apply assign_all_keeps; [by apply registered_None | apply get_set_eq].
Qed.

Lemma set_set_ne r k k' (e e' : RegistryEntry C) :
  k ≠ k' → set (set r k e) k' e' = set (set r k' e') k e.
Proof.
  intros Hne. unfold set.
  destruct (decide (k = "__proto__")) as [-> | Hk];
    destruct (decide (k' = "__proto__")) as [-> | Hk']; simpl;
    try reflexivity; [done |].
  by rewrite insert_insert_ne.
Qed.

Lemma assign_all_Permutation script script' r :
  script ≡ₚ script' → NoDup (names script) →
  assign_all script r = assign_all script' r.
Proof.
  intros Hperm. revert r.
  induction Hperm as [| [decl fn] l l' Hperm IH
                      | [d1 f1] [d2 f2] l | l l' l'' H1 IH1 H2 IH2];
    intros r Hnd.
  - reflexivity.
  - cbn [assign_all foldl]. apply IH. by apply NoDup_cons in Hnd as [_ ?].
  - cbn [assign_all foldl]. f_equal. apply set_set_ne.
    apply NoDup_cons in Hnd as [Hnotin _]. simpl in Hnotin.
    intros Heq. apply Hnotin. rewrite Heq. left.
  - rewrite IH1 by exact Hnd. apply IH2.
    unfold names in *. by rewrite <- H1.
Qed.

(** X1. On a handler that started empty and was loaded from a script, a
    dispatch to a name the script does not register never runs a handler.
    It throws "Handler missing for <name>", unless the name is one that
    the registry object inherits (or one of [type], [fn] after a
    registration named [__proto__]): then it throws the engine's
    [TypeError]. *)
Theorem unregistered_name_outcome script context k token payload w :
  k ∉ names script →
  let h := snd (load (loader_of script)
                  {| this := new_FunctionHandler; world := w |}) in
  call context (envelope k token payload) h =
    (Throw (if decide (shadowed script k)
            then TypeError_property_of_undefined "i"
            else Handler_missing k), h).
Proof.
  intros Hk h. subst h. rewrite load_script_registry. cbn [snd].
  pose proof (get_unregistered script k Hk) as Hget.
  destruct (decide (shadowed script k)).
  - by eapply call_foreign.
  - by eapply call_handler_missing.
Qed.

(** X2. When a loader registers a name several times, the handler in
    force after [load] is that of the last of these registrations,
    whatever the registry held before. *)
Theorem load_last_registration_wins script k e h :
  registered script k = Some e →
  fst (load (loader_of script) h) = Return tt ∧
  get (registry (this (snd (load (loader_of script) h)))) k = Entry e.
Proof.
  intros Hreg. rewrite load_script_registry. split; [reflexivity |].
  by apply assign_all_registered_last.
Qed.

(** X3. Two loads in a row are one load of the two loaders in sequence. *)
Theorem load_twice_is_load_of_both script script' h :
  load (loader_of script') (snd (load (loader_of script) h)) =
  load (loader_of (script ++ script')) h.
Proof.
  rewrite !load_script_registry. cbn [snd]. by rewrite assign_all_app.
Qed.

(** X4. When the names a loader registers are pairwise distinct, the order
    of its registrations does not matter: any reordering loads the same
    registry. *)
Theorem load_order_irrelevant script script' h :
  script ≡ₚ script' → NoDup (names script) →
  load (loader_of script) h = load (loader_of script') h.
Proof.
  intros Hperm Hnd. rewrite !load_script_registry.
  by rewrite (assign_all_Permutation _ _ _ Hperm Hnd).
Qed.

(** X5. [load] does not undo anything: when the loader throws after some
    registrations, the exception leaves [load] and these registrations
    stay in the registry. *)
Theorem load_keeps_registrations_when_loader_throws script reason h :
  load (fun register => loader_of script register ;;; throw reason) h =
    (Throw reason, snd (load (loader_of script) h)).
Proof.
  change (load (fun register => loader_of script register ;;; throw reason) h)
    with (bind (load (loader_of script)) (fun _ => throw (A := unit) reason) h).
  unfold bind. by rewrite load_script_registry.
Qed.

(** X6. Registering other names changes nothing for a name already
    registered: a dispatch to it has the same outcome and the same effect
    on the world after the load as before. *)
Theorem load_leaves_other_dispatches script context k token payload e h :
  k ∉ names script →
  get (registry (this h)) k = Entry e →
  let h' := snd (load (loader_of script) h) in
  fst (call context (envelope k token payload) h') =
  fst (call context (envelope k token payload) h) ∧
  world (snd (call context (envelope k token payload) h')) =
  world (snd (call context (envelope k token payload) h)).
Proof.
  intros Hk Hget h'.
  assert (Hget' : get (registry (this h')) k = Entry e).
  { subst h'. rewrite load_script_registry. by apply assign_all_keeps. }
  assert (Hw : world h' = world h).
  { subst h'. by rewrite load_script_registry. }
  pose proof (decode_Payload_envelope k token payload) as Hmsg.
  destruct (decode (i (type e)) payload) as [detail | input] eqn:Hdec.
  - rewrite (call_invalid_input _ _ _ _ _ _ _ _ Hmsg Hget Hdec).
    by rewrite (call_invalid_input _ _ _ _ _ _ _ _ Hmsg Hget' Hdec).
  - rewrite (call_invokes _ _ _ _ _ _ _ _ Hmsg Hget Hdec).
    rewrite (call_invokes _ _ _ _ _ _ _ _ Hmsg Hget' Hdec).
    by rewrite Hw.
Qed.
End Loading.

(** ** Dispatching, continued *)

Section Dispatching.
Context `{RT : Runtime} {C : Type}.
Local Open Scope js_scope.
Implicit Types (h : Heap C) (context : C) (msg payload input : value)
  (handler : RegistryEntry C).

(** A dispatch throws and leaves the heap alone, or runs one handler. *)
Lemma call_cases context msg h :
  (∃ reason, call context msg h = (Throw reason, h)) ∨
  ∃ name token args handler input,
    decode Payload msg = Right (name, token, args) ∧
    get (registry (this h)) name = Entry handler ∧
    decode (i (type handler)) args = Right input ∧
    call context msg h =
      (package token (fst (fn handler context input (world h))),
       with_world h (snd (fn handler context input (world h)))).
Proof.
  destruct (decode Payload msg) as [e | [[name token] args]] eqn:Hmsg.
  { left. eexists. by apply call_envelope_rejected. }
  destruct (get (registry (this h)) name) as [handler | |] eqn:Hget.
  - destruct (decode (i (type handler)) args) as [e | input] eqn:Hin.
    + left. eexists. by eapply call_invalid_input.
    + right. exists name, token, args, handler, input.
      repeat split; try done. by eapply call_invokes.
  - left. eexists. by eapply call_foreign.
  - left. eexists. by eapply call_handler_missing.
Qed.

(** What a dispatch returns carries the envelope's token. *)
Lemma call_token_echo context name tok payload h :
  (∃ reason h', call context (envelope name tok payload) h = (Throw reason, h')) ∨
  (∃ r h', call context (envelope name tok payload) h =
             (Return {| token := tok; result := r |}, h')).
Proof.
  destruct (call_cases context (envelope name tok payload) h)
    as [[reason ->] | (n & t & args & handler & input & Hmsg & _ & _ & ->)];
    [eauto |].
  rewrite decode_Payload_envelope in Hmsg. injection Hmsg as <- <- <-.
  destruct (fst (fn handler context input (world h))); simpl; eauto.
Qed.

(** X7. When the envelope is malformed, the name is not registered or the
    payload is invalid, the dispatch throws and the heap, the world of the
    handlers included, is exactly what it was: no handler has run. *)
Theorem call_failed_check_leaves_heap context msg h k :
  expected_failure context msg h = Some k →
  raised_by_dispatcher k = true →
  ∃ reason, call context msg h = (Throw reason, h).
Proof.
  intros Hk Hraised. pose proof (call_checks context msg h) as Hcall.
  rewrite Hk in Hcall. destruct k as [| n | n detail | cause].
  - destruct Hcall as [detail ->]. eauto.
  - rewrite Hcall. eauto.
  - rewrite Hcall. eauto.
  - discriminate.
Qed.

(** X8. The dispatcher does not look at the token: two envelopes that
    differ in the token only have the same effect on the heap, fail with the
    same reason if they fail, and otherwise return the same result, each
    with its own token. *)
Theorem call_token_opaque context name tok tok' payload h :
  snd (call context (envelope name tok payload) h) =
  snd (call context (envelope name tok' payload) h) ∧
  match fst (call context (envelope name tok payload) h),
        fst (call context (envelope name tok' payload) h) with
  | Return reply, Return reply' =>
      result reply = result reply' ∧
      token reply = tok ∧ token reply' = tok'
  | Throw reason, Throw reason' => reason = reason'
  | _, _ => False
  end.
Proof.
  pose proof (decode_Payload_envelope name tok payload) as Hmsg.
  pose proof (decode_Payload_envelope name tok' payload) as Hmsg'.
  destruct (get (registry (this h)) name) as [handler | |] eqn:Hget.
  - destruct (decode (i (type handler)) payload) as [e | input] eqn:Hin.
    + rewrite (call_invalid_input _ _ _ _ _ _ _ _ Hmsg Hget Hin).
      by rewrite (call_invalid_input _ _ _ _ _ _ _ _ Hmsg' Hget Hin).
    + rewrite (call_invokes _ _ _ _ _ _ _ _ Hmsg Hget Hin).
      rewrite (call_invokes _ _ _ _ _ _ _ _ Hmsg' Hget Hin).
      split; [reflexivity |]. cbn [fst].
      by destruct (fst (fn handler context input (world h))).
  - rewrite (call_foreign _ _ _ _ _ _ Hmsg Hget).
    by rewrite (call_foreign _ _ _ _ _ _ Hmsg' Hget).
  - rewrite (call_handler_missing _ _ _ _ _ _ Hmsg Hget).
    by rewrite (call_handler_missing _ _ _ _ _ _ Hmsg' Hget).
Qed.

(** X9. The dispatcher adds no effect of its own: a property of the world
    that every registered handler preserves still holds after any number
    of dispatches, whatever their envelopes and outcomes. *)
Theorem dispatches_preserve_invariant (P : World → Prop) h h' :
  (∀ name handler context input w,
     get (registry (this h)) name = Entry handler →
     P w → P (snd (fn handler context input w))) →
  dispatches h h' → P (world h) → P (world h').
Proof.
  intros Hpres Hd. induction Hd as [h | h context msg h' Hd IH];
    [done |].
  intros HP. apply IH.
  - intros name handler context' input w Hget. rewrite call_this in Hget.
    by apply (Hpres name).
  - destruct (call_cases context msg h)
      as [[reason ->] | (name & token & args & handler & input
                         & _ & Hget & _ & ->)];
      [exact HP |].
    cbn [snd with_world world]. by eapply Hpres.
Qed.
End Dispatching.

(** ** Tokens, continued *)

Section TokenShape.
Context `{RT : Runtime} {C : Type}.
Local Open Scope js_scope.
Implicit Types (h : Heap C) (context : C).

Lemma Number_toString_nonempty (n : Z) : Number_toString n ≠ "".
Proof.
  unfold Number_toString. intros Hempty.
  assert (Hparse :
    DecimalString.NilZero.int_of_string
      (DecimalString.NilZero.string_of_int (Z.to_int n)) = Some (Z.to_int n)).
  { apply DecimalString.NilZero.isi; destruct n; try discriminate;
      intros [= Hnil]; by apply DecimalPos.Unsigned.to_uint_nonnil in Hnil. }
  rewrite Hempty in Hparse. discriminate.
Qed.

Lemma uuid_token_nonempty h tok : fst (uuid h) = Return tok → tok ≠ "".
Proof.
  rewrite uuid_returns. cbn [fst]. intros [= <-] Hempty.
  destruct (Number_toString (Date_now (world h))) eqn:Hnow;
    [by apply Number_toString_nonempty in Hnow | discriminate].
Qed.

(** X10. The token generator never fails. Its result is the decimal
    rendering of [Date.now()], which is never empty, followed by the
    hexadecimal rendering of the salt; so it is never the empty string,
    the value reserved for calls that expect no response. *)
Theorem uuid_never_the_empty_token h :
  let now := Number_toString (Date_now (world h)) in
  let suffix := Number_toString16 (salt (fst (Math_random (world h)))) in
  fst (uuid h) = Return (now +:+ suffix) ∧
  now ≠ "" ∧ now +:+ suffix ≠ "".
Proof.
  intros now suffix. split; [by rewrite uuid_returns |].
  split; [apply Number_toString_nonempty |].
  eapply uuid_token_nonempty. by rewrite uuid_returns.
Qed.

(** X11. For a random number in [0, 1) the salt lies between 0 and 256,
    both included, and every integer of that range is the salt of some
    such number: the salt takes 257 values. The last one, 256, is what
    every number from 511/512 on gives. *)
Theorem salt_range (x : Q) :
  (0 <= x)%Q → (x < 1)%Q →
  (0 <= salt x <= 256)%Z ∧
  ((511 # 512 <= x)%Q → salt x = 256%Z) ∧
  ∀ n : Z, (0 <= n <= 256)%Z →
    ∃ y : Q, (0 <= y)%Q ∧ (y < 1)%Q ∧ salt y = n.
Proof.
  intros H0 H1.
  assert (Htop : ∀ y : Q, (0 <= y)%Q → (y < 1)%Q → (511 # 512 <= y)%Q →
                          salt y = 256%Z).
  { intros y Hy0 Hy1 Hy. unfold salt, Math_round.
    assert (Hhi : (Qfloor (y * 256 + (1 # 2)) <= Qfloor (513 # 2))%Z)
      by (apply Qfloor_resp_le; lra).
    change (Qfloor (513 # 2)) with 256%Z in Hhi.
    assert (Hge : (Qfloor (inject_Z 256) <= Qfloor (y * 256 + (1 # 2)))%Z)
      by (apply Qfloor_resp_le; unfold inject_Z; lra).
    rewrite Qfloor_Z in Hge. lia. }
  split; [| split].
  - unfold salt, Math_round.
    assert (Hlo : (Qfloor 0 <= Qfloor (x * 256 + (1 # 2)))%Z)
      by (apply Qfloor_resp_le; lra).
    assert (Hhi : (Qfloor (x * 256 + (1 # 2)) <= Qfloor (513 # 2))%Z)
      by (apply Qfloor_resp_le; lra).
    change (Qfloor 0) with 0%Z in Hlo.
    change (Qfloor (513 # 2)) with 256%Z in Hhi. lia.
  - by apply Htop.
  - intros n Hn. destruct (decide (n = 256%Z)) as [-> | Hne].
    + exists (511 # 512). split; [discriminate |]. split; [reflexivity |].
      reflexivity.
    + exists (n # 256). split; [| split].
      * unfold Qle. cbn [Qnum Qden]. lia.
      * unfold Qlt. cbn [Qnum Qden]. lia.
      * unfold salt, Math_round, Qfloor, Qplus, Qmult. cbn [Qnum Qden].
        change (Z.pos (256 * 1 * 2)) with 512%Z.
        change (Z.pos (256 * 1)) with 256%Z.
        symmetry. apply Z.div_unique with 256%Z; lia.
Qed.

End TokenShape.

(** ** The README's server *)

Section ReadmeServer.
Context `{RT : Runtime} {C : Type}.
Local Open Scope js_scope.
Implicit Types (h : Heap C) (context : C).
Variable socket_emit : C -> string -> value -> World -> World.

(** X12. The listener of the README's server emits nothing for an envelope
    whose token is not the empty string: it ends as the dispatch ends and
    leaves the heap as the dispatch leaves it, so a call that carries a
    token and waits for the response gets none. *)
Theorem on_fn_silent_for_nonempty_token context name tok payload h :
  tok ≠ "" →
  on_fn socket_emit context (envelope name tok payload) h =
    (match fst (call context (envelope name tok payload) h) with
     | Return _ => Return tt
     | Throw reason => Throw reason
     end,
     snd (call context (envelope name tok payload) h)).
Proof.
  intros Htok. unfold on_fn, bind.
  destruct (call_token_echo context name tok payload h) as [Hthrow | Hret].
  - destruct Hthrow as (reason & h' & ->). reflexivity.
  - destruct Hret as (r & h' & ->). cbn [token fst snd].
    by rewrite decide_False by exact Htok.
Qed.

(** X13. For an envelope with the empty token, the one that asks for no
    response, the listener does emit: when the dispatch returns, the
    result is sent on the event named by the empty string. *)
Theorem on_fn_emits_for_empty_token context name payload h reply h' :
  call context (envelope name "" payload) h = (Return reply, h') →
  on_fn socket_emit context (envelope name "" payload) h =
    (Return tt,
     with_world h' (socket_emit context "" (result reply) (world h'))).
Proof.
  intros Hcall. unfold on_fn, bind. rewrite Hcall.
  destruct (call_token_echo context name "" payload h) as [Hthrow | Hret].
  - destruct Hthrow as (reason & h'' & Heq). congruence.
  - destruct Hret as (r & h'' & Heq). rewrite Hcall in Heq.
    injection Heq as -> _. cbn [token result]. reflexivity.
Qed.
End ReadmeServer.

(** ** The further properties on the README's example *)

Section MoreInstances.
Import Example.

Lemma loaded_entries key (handler : RegistryEntry (RT := sim) unit) :
  get (registry (this loaded)) key = Entry handler →
  handler = entry_of Add add ∨ handler = entry_of Ping (note "ping") ∨
  handler = entry_of Pong (note "pong").
Proof.
  assert (Hr : registry (this loaded) =
    {| own := <["Pong" := entry_of Pong (note "pong")]>
                (<["Ping" := entry_of Ping (note "ping")]>
                   (<["Add" := entry_of Add add]> ∅));
       proto := None |}) by reflexivity.
  rewrite Hr. unfold get. cbn [own proto].
  destruct (decide (key = "__proto__")); [discriminate |].
  rewrite !lookup_insert, lookup_empty.
  repeat case_decide; try discriminate; intros [= <-]; eauto.
Qed.

Lemma unregistered_name_outcome_witness :
  ("DoesNotExist" ∉ names three) ∧
  call tt (envelope "DoesNotExist" "t" (VObject [])) loaded
  = (Throw (new_Error "Handler missing for DoesNotExist"), loaded).
Proof.
  assert (Hk : "DoesNotExist" ∉ names three)
    by (refine (bool_decide_unpack _ _); vm_compute; exact I).
  split; [exact Hk |].
  exact (unregistered_name_outcome three tt "DoesNotExist" "t" (VObject [])
           quiet Hk).
Defined.

Lemma load_last_registration_wins_witness :
  registered twice "Add" = Some (entry_of Add (note "second")) ∧
  journal (world (snd (call tt (envelope "Add" "t" one_two)
                         (snd (load (loader_of twice) (fresh quiet))))))
  = ["second"].
Proof.
  assert (Hreg : registered twice "Add" = Some (entry_of Add (note "second")))
    by reflexivity.
  split; [exact Hreg |].
  destruct (load_last_registration_wins twice "Add" _ (fresh quiet) Hreg)
    as [_ Hget].
  rewrite (call_invokes tt _ "Add" "t" one_two _ one_two _
             (decode_Payload_envelope "Add" "t" one_two) Hget eq_refl).
  reflexivity.
Defined.

Lemma load_order_irrelevant_witness :
  three ≡ₚ three_reordered ∧ NoDup (names three) ∧
  load (loader_of three) (fresh quiet)
  = load (loader_of three_reordered) (fresh quiet).
Proof.
  assert (Hperm : three ≡ₚ three_reordered)
    by (symmetry; apply (Permutation_cons_append [(Add, add); (Ping, note "ping")])).
  assert (Hnd : NoDup (names three))
    by (refine (bool_decide_unpack _ _); vm_compute; exact I).
  split; [exact Hperm |]. split; [exact Hnd |].
  exact (load_order_irrelevant three three_reordered (fresh quiet) Hperm Hnd).
Defined.

Lemma load_leaves_other_dispatches_witness :
  let later := snd (load (loader_of [(Ping, note "ping"); (Pong, note "pong")])
                      serving) in
  fst (call tt (envelope "Add" "t" one_two) later) = Return
    {| token := "t"; result := VNumber 3 |}.
Proof.
  intros later.
  assert (Hk : "Add" ∉ names [(Ping, note "ping"); (Pong, note "pong")])
    by (refine (bool_decide_unpack _ _); vm_compute; exact I).
  assert (Hget : get (registry (this serving)) "Add" = Entry (entry_of Add add))
    by reflexivity.
  destruct (load_leaves_other_dispatches _ tt "Add" "t" one_two _ serving
              Hk Hget) as [Hsame _].
  subst later. rewrite Hsame. reflexivity.
Defined.

Lemma call_failed_check_leaves_heap_witness :
  ∃ reason,
    call tt (envelope "Add" "t" (VObject [("a", VString "x")])) loaded
    = (Throw reason, loaded).
Proof.
  apply (call_failed_check_leaves_heap tt
           (envelope "Add" "t" (VObject [("a", VString "x")])) loaded
           (InputDecodeError "Add"
              (lefts (decode (i (apply Add tt))
                        (VObject [("a", VString "x")])))));
    reflexivity.
Defined.

Lemma dispatches_preserve_invariant_witness :
  let after := snd (call tt (envelope "Pong" "" VNull)
                      (snd (call tt (envelope "Ping" "t" VNull) loaded))) in
  journal (world after) = ["ping"; "pong"] ∧
  clock (world after) = clock quiet.
Proof.
  intros after. split; [reflexivity |].
  apply (dispatches_preserve_invariant (RT := sim)
           (fun w => clock w = clock quiet) loaded after).
  - intros key handler context input w Hget Hclock.
    destruct (loaded_entries key handler Hget) as [-> | [-> | ->]];
      exact Hclock.
  - eapply dispatches_step, dispatches_step, dispatches_refl.
  - reflexivity.
Defined.

Lemma salt_range_witness :
  (0 <= salt (511 # 512) <= 256)%Z ∧ salt (511 # 512) = 256%Z.
Proof.
  destruct (salt_range (511 # 512)) as (Hrange & Htop & _).
  - discriminate.
  - reflexivity.
  - split; [exact Hrange | apply Htop; discriminate].
Defined.

Lemma on_fn_silent_for_nonempty_token_witness :
  on_fn (RT := sim) journal_emit tt (envelope "Add" "15412345678900" one_two) serving
  = (Return tt, serving).
Proof.
  apply (on_fn_silent_for_nonempty_token (RT := sim) journal_emit tt
           "Add" "15412345678900" one_two serving).
  discriminate.
Defined.

Lemma on_fn_emits_for_empty_token_witness :
  journal (world (snd (on_fn (RT := sim) journal_emit tt (envelope "Add" "" one_two)
                         serving)))
  = ["emit:"].
Proof.
  rewrite (on_fn_emits_for_empty_token (RT := sim) journal_emit tt "Add" one_two serving
             {| token := ""; result := VNumber 3 |} serving eq_refl).
  reflexivity.
Defined.
End MoreInstances.
